(** * MapperFactory: shallow embedding of src/src/MapperFactory.py

    The YAML description handed to [build] is modelled by [yaml]; the values
    fed to a mapper's [map] by [pyval]; Python exceptions by [exn] in the
    error monad [result].  The code runs under Python 2: a YAML number is an
    [int] ([YInt]) or a [float] ([YNum]), and [/] floor-divides when both
    operands are ints.  Float values are modelled as real numbers (exact
    arithmetic); the float rounding of the code is not modelled. *)

From Stdlib Require Import ZArith Reals Lra Psatz String Ascii List Bool.
Import ListNotations.
Open Scope R_scope.
Open Scope string_scope.
Set Warnings "-register-all".

(** ** Python exceptions and the error monad *)

Inductive exn :=
| KeyError
| TypeError
| AttributeError
| ZeroDivisionError
| ValueError.

Inductive result (A : Type) :=
| Ok (a : A)
| Err (e : exn).
Arguments Ok {A} a.
Arguments Err {A} e.

Definition bind {A B} (r : result A) (k : A -> result B) : result B :=
  match r with
  | Ok a => k a
  | Err e => Err e
  end.

Notation "x <- c ;; k" := (bind c (fun x => k))
  (at level 61, c at next level, right associativity).

(** Python 2's eager [map(f, xs)]. *)
Fixpoint mapM {A B} (f : A -> result B) (l : list A) : result (list B) :=
  match l with
  | [] => Ok []
  | x :: l' => y <- f x ;; ys <- mapM f l' ;; Ok (y :: ys)
  end.

(** ** YAML objects (the [args] and [motor_entry] of the constructors) *)

Inductive yaml :=
  (** a YAML float *)
| YNum (r : R)
  (** a YAML int *)
| YInt (z : Z)
| YStr (s : string)
| YList (l : list yaml)
| YDict (d : list (string * yaml)).

Fixpoint lookup (d : list (string * yaml)) (k : string) : option yaml :=
  match d with
  | [] => None
  | (k', v) :: d' => if String.eqb k k' then Some v else lookup d' k
  end.

(** [d.has_key(k)] *)
Definition has_key (d : list (string * yaml)) (k : string) : bool :=
  match lookup d k with Some _ => true | None => false end.

(** [d[k]] on a dict *)
Definition getitem (d : list (string * yaml)) (k : string) : result yaml :=
  match lookup d k with Some v => Ok v | None => Err KeyError end.

(** [y[k]] on an arbitrary YAML object *)
Definition yget (y : yaml) (k : string) : result yaml :=
  match y with
  | YDict d => getitem d k
  | _ => Err TypeError
  end.

(** Iterating over a YAML object ([for x in y], [map(f, y)]). *)
Definition py_iter (y : yaml) : result (list yaml) :=
  match y with
  | YList l => Ok l
  | YDict d => Ok (List.map (fun kv => YStr (fst kv)) d)
  | YStr s => Ok (List.map (fun c => YStr (String c EmptyString)) (list_ascii_of_string s))
  | YNum _ | YInt _ => Err TypeError
  end.

(** Arithmetic operands must be numbers; where only the value matters an int
    is taken as the real it denotes. *)
Definition as_num (y : yaml) : result R :=
  match y with YNum r => Ok r | YInt z => Ok (IZR z) | _ => Err TypeError end.

Definition py_neg (a : yaml) : result R := x <- as_num a ;; Ok (- x).

(** A Python 2 number, keeping whether it is an [int]. *)
Inductive num :=
| NInt (z : Z)
| NFloat (r : R).

Definition num_val (n : num) : R :=
  match n with NInt z => IZR z | NFloat r => r end.

Definition as_pynum (y : yaml) : result num :=
  match y with YNum r => Ok (NFloat r) | YInt z => Ok (NInt z) | _ => Err TypeError end.

Definition num_yaml (n : num) : yaml :=
  match n with NInt z => YInt z | NFloat r => YNum r end.

(** [a - b]: an int when both are ints, a float otherwise *)
Definition py_sub (a b : yaml) : result num :=
  x <- as_pynum a ;; y <- as_pynum b ;;
  Ok (match x, y with
      | NInt i, NInt j => NInt (i - j)
      | _, _ => NFloat (num_val x - num_val y)
      end).

(** [a / b] on floats *)
Definition py_div (a b : R) : result R :=
  if Req_EM_T b 0 then Err ZeroDivisionError else Ok (a / b).

(** [a / b] in Python 2: floor division when both are ints ([Z.div] rounds
    towards minus infinity, as Python does), true division otherwise. *)
Definition py_num_div (a b : num) : result num :=
  match a, b with
  | NInt i, NInt j => if Z.eqb j 0 then Err ZeroDivisionError else Ok (NInt (Z.div i j))
  | _, _ => r <- py_div (num_val a) (num_val b) ;; Ok (NFloat r)
  end.

(** ** Python's [math] functions used by the code *)

(** [math.atan2] (C's atan2, signed zeros aside). *)
Definition atan2 (y x : R) : R :=
  if Rlt_dec 0 x then atan (y / x)
  else if Rlt_dec x 0 then
    (if Rle_dec 0 y then atan (y / x) + PI else atan (y / x) - PI)
  else if Rlt_dec 0 y then PI / 2
  else if Rlt_dec y 0 then - (PI / 2)
  else 0.

(** [math.asin]: a math domain error outside [[-1, 1]]. *)
Definition py_asin (r : R) : result R :=
  if Rle_dec (-1) r then
    if Rle_dec r 1 then Ok (asin r) else Err ValueError
  else Err ValueError.

(** [math.acos]: a math domain error outside [[-1, 1]]. *)
Definition py_acos (r : R) : result R :=
  if Rle_dec (-1) r then
    if Rle_dec r 1 then Ok (acos r) else Err ValueError
  else Err ValueError.

(** ** Values passed to [map] *)

(** A quaternion object with attributes [w], [x], [y], [z]. *)
Record quat := Quat { qw : R; qx : R; qy : R; qz : R }.

Inductive pyval :=
| PNum (r : R)
| PSeq (l : list R)
| PQuat (q : quat).

(** [val + ...] needs a number. *)
Definition as_float (v : pyval) : result R :=
  match v with PNum r => Ok r | _ => Err TypeError end.

(** [zip(vals, ...)] needs an iterable. *)
Definition as_iter (v : pyval) : result (list R) :=
  match v with PSeq l => Ok l | _ => Err TypeError end.

(** [q.w] and friends need a quaternion object. *)
Definition attr_q (v : pyval) : result quat :=
  match v with PQuat q => Ok q | _ => Err AttributeError end.

(** ** Mapper objects *)

Inductive mapper :=
| MLinear (pretranslate : R) (scale posttranslate : yaml)
  (** a [Linear] whose [__init__] took neither branch: no attribute set *)
| MLinearBare
| MWeightedSum (posttranslate : R) (pretranslations scalefactors : list R)
    (termargs : list yaml)
  (** [Quaternion2Euler*]: [self.map] is the lambda chosen at construction *)
| MQuat (f : pyval -> result pyval)
  (** [Composite]: its elements are whatever [build] returned, [None] included *)
| MComposite (mapper_list : list (option mapper)).

(** *** Linear *)

Definition Linear_init (args : list (string * yaml)) (motor_entry : yaml)
  : result mapper :=
  if has_key args "scale" && has_key args "translate" then
    sc <- getitem args "scale" ;;
    tr <- getitem args "translate" ;;
    Ok (MLinear 0 sc tr)
  else if has_key args "min" && has_key args "max" then
    amin <- getitem args "min" ;;
    pre <- py_neg amin ;;
    mmax <- yget motor_entry "max" ;;
    mmin <- yget motor_entry "min" ;;
    num <- py_sub mmax mmin ;;
    amax <- getitem args "max" ;;
    amin' <- getitem args "min" ;;
    den <- py_sub amax amin' ;;
    sc <- py_num_div num den ;;
    post <- yget motor_entry "min" ;;
    Ok (MLinear pre (num_yaml sc) post)
  else Ok MLinearBare.

Definition Linear_map (pre : R) (sc post : yaml) (v : pyval) : result pyval :=
  x <- as_float v ;;
  s <- as_num sc ;;
  p <- as_num post ;;
  Ok (PNum ((x + pre) * s + p)).

(** *** WeightedSum *)

Definition WeightedSum_saturated (val : R) (interval : yaml) : result R :=
  a <- yget interval "min" ;; a <- as_num a ;;
  b <- yget interval "max" ;; b <- as_num b ;;
  Ok (Rmin (Rmax val (Rmin a b)) (Rmax a b)).

(** [lambda (val, translate, scale, term): ...] of [map] *)
Definition WeightedSum_term (e : R * R * R * yaml) : result R :=
  let '(val, translate, scale, term) := e in
  s <- WeightedSum_saturated val term ;;
  Ok ((s + translate) * scale).

Definition WeightedSum_map (post : R) (pres scs : list R) (terms : list yaml)
  (v : pyval) : result pyval :=
  vals <- as_iter v ;;
  parts <- mapM WeightedSum_term
                (combine (combine (combine vals pres) scs) terms) ;;
  Ok (PNum (fold_left Rplus parts 0 + post)).

(** [lambda term: -term["min"]] *)
Definition WeightedSum_pretranslation (term : yaml) : result R :=
  tmin <- yget term "min" ;; py_neg tmin.

(** [lambda term: (term["imax"]-args["imin"])/(term["max"]-term["min"])*range_motors] *)
Definition WeightedSum_scalefactor (args : list (string * yaml)) (range_motors : R)
  (term : yaml) : result R :=
  ti <- yget term "imax" ;;
  ai <- getitem args "imin" ;;
  n <- py_sub ti ai ;;
  tmax <- yget term "max" ;;
  tmin <- yget term "min" ;;
  d <- py_sub tmax tmin ;;
  r <- py_num_div n d ;;
  Ok (num_val r * range_motors).

Definition WeightedSum_init (args : list (string * yaml)) (motor_entry : yaml)
  : result mapper :=
  mmax <- yget motor_entry "max" ;;
  mmin <- yget motor_entry "min" ;;
  range_motors <- py_sub mmax mmin ;;
  let range_motors := num_val range_motors in
  imin <- getitem args "imin" ;;
  imin <- as_num imin ;;
  mmin' <- yget motor_entry "min" ;;
  mmin' <- as_num mmin' ;;
  let posttranslate := imin * range_motors + mmin' in
  terms <- getitem args "terms" ;;
  terms <- py_iter terms ;;
  pres <- mapM WeightedSum_pretranslation terms ;;
  scs <- mapM (WeightedSum_scalefactor args range_motors) terms ;;
  Ok (MWeightedSum posttranslate pres scs terms).

(** *** Quaternion2EulerYZX and Quaternion2EulerYZY *)

Definition lower_ascii (c : ascii) : ascii :=
  let n := nat_of_ascii c in
  if (Nat.leb 65 n && Nat.leb n 90)%bool then ascii_of_nat (n + 32) else c.

(** [str.lower()] on a byte string *)
Fixpoint lower (s : string) : string :=
  match s with
  | EmptyString => EmptyString
  | String c s' => String (lower_ascii c) (lower s')
  end.

(** [args['axis'].lower()] *)
Definition axis_key (args : list (string * yaml)) : result string :=
  a <- getitem args "axis" ;;
  match a with YStr s => Ok (lower s) | _ => Err AttributeError end.

Definition yzx_y (v : pyval) : result pyval :=
  q <- attr_q v ;;
  Ok (PNum (atan2 (-2 * (qz q * qx q - qw q * qy q))
                  (qw q ^ 2 - qy q ^ 2 - qz q ^ 2 + qx q ^ 2))).

Definition yzx_z (v : pyval) : result pyval :=
  q <- attr_q v ;;
  r <- py_asin (2 * (qy q * qx q + qw q * qz q)) ;;
  Ok (PNum r).

Definition yzx_x (v : pyval) : result pyval :=
  q <- attr_q v ;;
  Ok (PNum (atan2 (-2 * (qy q * qz q - qw q * qx q))
                  (qw q ^ 2 + qy q ^ 2 - qz q ^ 2 - qx q ^ 2))).

(** [funcsByAxis[key]] *)
Definition Quaternion2EulerYZX_init (args : list (string * yaml))
  (motor_entry : yaml) : result mapper :=
  key <- axis_key args ;;
  if String.eqb key "y" then Ok (MQuat yzx_y)
  else if String.eqb key "z" then Ok (MQuat yzx_z)
  else if String.eqb key "x" then Ok (MQuat yzx_x)
  else Err KeyError.

(** [why(q)] of [Quaternion2EulerYZY]: the intermediate angles only feed a
    [print]; the printed text is not modelled, the failures on the way are.
    As everywhere in this file the floats are exact reals, so where float
    rounding decides a failure the model and the code may part: at w = -1,
    sin(acos(-1)) is exactly 0 here but about 1.2e-16 in floats, and an acos
    or asin argument that is exactly 1 here may round just above 1 there. *)
Definition yzy_why (v : pyval) : result pyval :=
  q <- attr_q v ;;
  ac <- py_acos (qw q) ;;
  let alpha := 2 * ac in
  let sina := sin ((1 / 2) * alpha) in
  cx <- py_div (qx q) sina ;;
  cy <- py_div (qy q) sina ;;
  cz <- py_div (qz q) sina ;;
  _bx <- py_acos cx ;;
  _by <- py_acos cy ;;
  _bz <- py_acos cz ;;
  _tz <- py_asin (2 * (qy q * qx q + qw q * qz q)) ;;
  Ok (PNum (atan2 (-2 * (qz q * qx q - qw q * qy q))
                  (qw q ^ 2 - qy q ^ 2 - qz q ^ 2 + qx q ^ 2))).

Definition yzy_z (v : pyval) : result pyval :=
  q <- attr_q v ;;
  r <- py_asin (2 * (qy q * qx q + qw q * qz q)) ;;
  Ok (PNum r).

Definition yzy_y (v : pyval) : result pyval :=
  q <- attr_q v ;;
  Ok (PNum (atan2 (-2 * (qy q * qz q - qw q * qx q))
                  (qw q ^ 2 + qy q ^ 2 - qz q ^ 2 - qx q ^ 2))).

Definition Quaternion2EulerYZY_init (args : list (string * yaml))
  (motor_entry : yaml) : result mapper :=
  key <- axis_key args ;;
  if String.eqb key "x" then Ok (MQuat yzy_why)
  else if String.eqb key "z" then Ok (MQuat yzy_z)
  else if String.eqb key "y" then Ok (MQuat yzy_y)
  else Err KeyError.

(** ** [map] *)

Fixpoint mapper_map (m : mapper) (v : pyval) : result pyval :=
  match m with
  | MLinear pre sc post => Linear_map pre sc post v
  | MLinearBare => Err AttributeError
  | MWeightedSum post pres scs terms => WeightedSum_map post pres scs terms v
  | MQuat f => f v
  | MComposite ms =>
      (fix go (ms : list (option mapper)) (val : pyval) : result pyval :=
         match ms with
         | [] => Ok val
         | None :: _ => Err AttributeError
         | Some mi :: ms' => val' <- mapper_map mi val ;; go ms' val'
         end) ms v
  end.

(** [obj.map(v)] on whatever [build] returned ([None] has no [map]). *)
Definition call_map (o : option mapper) (v : pyval) : result pyval :=
  match o with
  | Some m => mapper_map m v
  | None => Err AttributeError
  end.

(** ** The registry and [build] *)

Definition mapper_ctor := list (string * yaml) -> yaml -> result mapper.

(** [_mapper_classes[key]] *)
Definition _mapper_classes (key : yaml) : result mapper_ctor :=
  match key with
  | YStr s =>
      if String.eqb s "linear" then Ok Linear_init
      else if String.eqb s "weightedsum" then Ok WeightedSum_init
      else if String.eqb s "quaternion2euler" then Ok Quaternion2EulerYZX_init
      else if String.eqb s "quaternion2YZY" then Ok Quaternion2EulerYZY_init
      else Err KeyError
  | YNum _ | YInt _ => Err KeyError
  | YList _ | YDict _ => Err TypeError  (* unhashable key *)
  end.

(** [build(yamlobj, motor_entry)]; [None] is Python's [None], returned when
    [yamlobj] is neither a dict nor a list. *)
Fixpoint build (yamlobj : yaml) (motor_entry : yaml) : result (option mapper) :=
  match yamlobj with
  | YDict d =>
      name <- getitem d "name" ;;
      cls <- _mapper_classes name ;;
      m <- cls d motor_entry ;;
      Ok (Some m)
  | YList l =>
      (* [[build(func_entry, motor_entry) for func_entry in yamlobj]] *)
      ms <- mapM (fun func_entry => build func_entry motor_entry) l ;;
      Ok (Some (MComposite ms))
  | _ => Ok None
  end.

(** ** Facts about the model *)

Example linear_affine_example :
  build (YDict [("name", YStr "linear"); ("scale", YNum 2); ("translate", YNum 1)])
        (YDict [])
  = Ok (Some (MLinear 0 (YNum 2) (YNum 1))).
Proof. reflexivity. Qed.

Example build_unknown_example :
  build (YDict [("name", YStr "Linear")]) (YDict []) = Err KeyError.
Proof. reflexivity. Qed.

Example lower_example : lower "Z" = "z".
Proof. reflexivity. Qed.


Lemma fold_left_Rplus_acc (l : list R) (acc : R) :
  fold_left Rplus l acc = acc + fold_right Rplus 0 l.
Proof.
  revert acc; induction l as [|x l IH]; intros acc; simpl.
  - ring.
  - rewrite IH. ring.
Qed.

Lemma bind_Ok {A B} (a : A) (k : A -> result B) : bind (Ok a) k = k a.
Proof. reflexivity. Qed.

Lemma bind_Err {A B} (e : exn) (k : A -> result B) : bind (Err e) k = Err e.
Proof. reflexivity. Qed.

Lemma py_div_nonzero a b : b <> 0 -> py_div a b = Ok (a / b).
Proof. intros Hb. unfold py_div. destruct (Req_EM_T b 0); [contradiction | reflexivity]. Qed.




Lemma bind_Ok_r {A} (r : result A) : bind r Ok = r.
Proof. destruct r; reflexivity. Qed.

Lemma mapM_Forall2 {A B} (f : A -> result B) l ms :
  Forall2 (fun x y => f x = Ok y) l ms -> mapM f l = Ok ms.
Proof. induction 1 as [|x y l ms Hxy _ IH]; simpl; [reflexivity|]. rewrite Hxy, IH. reflexivity. Qed.

Lemma mapM_Ok_Forall2 {A B} (f : A -> result B) l ms :
  mapM f l = Ok ms -> Forall2 (fun x y => f x = Ok y) l ms.
Proof.
  revert ms; induction l as [|x l IH]; intros ms H; simpl in H.
  - injection H as <-. constructor.
  - destruct (f x) as [y|e] eqn:Hx; [|discriminate].
    simpl in H. destruct (mapM f l) as [ys|e] eqn:Hl; [|discriminate].
    simpl in H. injection H as <-. constructor; [assumption | apply IH; reflexivity].
Qed.

(** Sequential application of the stages, written as a left fold. *)
Definition chain_stages (ms : list (option mapper)) (v : pyval) : result pyval :=
  fold_left (fun acc o => bind acc (call_map o)) ms (Ok v).

Lemma fold_chain_Err ms e :
  fold_left (fun acc o => bind acc (call_map o)) ms (Err e) = Err e.
Proof. induction ms as [|o ms IH]; simpl; [reflexivity | exact IH]. Qed.

Lemma composite_map_chain ms v :
  mapper_map (MComposite ms) v = chain_stages ms v.
Proof.
  unfold chain_stages. revert v.
  induction ms as [|[m|] ms IH]; intros v; simpl.
  - reflexivity.
  - destruct (mapper_map m v) as [a|e]; simpl.
    + exact (IH a).
    + symmetry. apply fold_chain_Err.
  - symmetry. apply fold_chain_Err.
Qed.

(** C4. [build] on a stage record constructs the class registered under its
    [name] ([linear], [weightedsum], [quaternion2euler], [quaternion2YZY])
    from the record and the motor entry; any other name fails with a
    KeyError.  On a list, [build] returns exactly a Composite of the
    recursively built elements, and the Composite evaluates as the manual
    sequential application of those stages. *)
Theorem build_dispatch_and_composite (motor_entry : yaml) :
  (forall d name, getitem d "name" = Ok (YStr name) ->
     (name = "linear" ->
        build (YDict d) motor_entry = (m <- Linear_init d motor_entry ;; Ok (Some m))) /\
     (name = "weightedsum" ->
        build (YDict d) motor_entry = (m <- WeightedSum_init d motor_entry ;; Ok (Some m))) /\
     (name = "quaternion2euler" ->
        build (YDict d) motor_entry
        = (m <- Quaternion2EulerYZX_init d motor_entry ;; Ok (Some m))) /\
     (name = "quaternion2YZY" ->
        build (YDict d) motor_entry
        = (m <- Quaternion2EulerYZY_init d motor_entry ;; Ok (Some m))) /\
     (~ In name ["linear"; "weightedsum"; "quaternion2euler"; "quaternion2YZY"] ->
        build (YDict d) motor_entry = Err KeyError)) /\
  (forall l ms, Forall2 (fun e o => build e motor_entry = Ok o) l ms ->
     build (YList l) motor_entry = Ok (Some (MComposite ms)) /\
     forall v, call_map (Some (MComposite ms)) v = chain_stages ms v) /\
  (forall l r, build (YList l) motor_entry = Ok r ->
     exists ms, r = Some (MComposite ms) /\
       Forall2 (fun e o => build e motor_entry = Ok o) l ms).
Proof.
  split; [|split].
  - intros d name Hn. simpl build. rewrite Hn. simpl bind.
    repeat split; try (intros ->; reflexivity).
    intros Hnin. unfold _mapper_classes.
    destruct (String.eqb name "linear") eqn:E1;
      [apply String.eqb_eq in E1; subst; exfalso; apply Hnin; simpl; tauto|].
    destruct (String.eqb name "weightedsum") eqn:E2;
      [apply String.eqb_eq in E2; subst; exfalso; apply Hnin; simpl; tauto|].
    destruct (String.eqb name "quaternion2euler") eqn:E3;
      [apply String.eqb_eq in E3; subst; exfalso; apply Hnin; simpl; tauto|].
    destruct (String.eqb name "quaternion2YZY") eqn:E4;
      [apply String.eqb_eq in E4; subst; exfalso; apply Hnin; simpl; tauto|].
    reflexivity.
  - intros l ms Hl. split.
    + simpl build. rewrite (mapM_Forall2 _ _ _ Hl). reflexivity.
    + intros v. apply composite_map_chain.
  - intros l r H. simpl build in H.
    destruct (mapM (fun e => build e motor_entry) l) as [ms|e] eqn:Hm; [|discriminate].
    simpl in H. injection H as <-. exists ms. split; [reflexivity|].
    exact (mapM_Ok_Forall2 _ _ _ Hm).
Qed.

Lemma build_dispatch_and_composite_witness :
  build (YDict [("name", YStr "linear"); ("scale", YNum 2); ("translate", YNum 1)]) (YDict [])
  = (m <- Linear_init [("name", YStr "linear"); ("scale", YNum 2); ("translate", YNum 1)]
            (YDict []) ;; Ok (Some m)) /\
  build (YDict [("name", YStr "Linear")]) (YDict []) = Err KeyError /\
  build (YList [YDict [("name", YStr "linear"); ("scale", YNum 2); ("translate", YNum 1)];
                YDict [("name", YStr "linear"); ("scale", YNum 3); ("translate", YNum 0)]])
        (YDict [])
  = Ok (Some (MComposite [Some (MLinear 0 (YNum 2) (YNum 1));
                          Some (MLinear 0 (YNum 3) (YNum 0))])).
Proof.
  destruct (build_dispatch_and_composite (YDict [])) as [Hd [Hl _]].
  split; [|split].
  - apply (Hd _ "linear"); reflexivity.
  - apply (Hd _ "Linear"); [reflexivity|].
    simpl. intros [H|[H|[H|[H|H]]]]; try discriminate H; exact H.
  - apply Hl. repeat constructor.
Defined.

(** C5. The empty Composite is the identity, and a two-stage Composite
    applies its first stage and then its second. *)
Theorem composite_identity_and_chaining :
  (forall v, mapper_map (MComposite []) v = Ok v) /\
  (forall (A B : mapper) v,
     mapper_map (MComposite [Some A; Some B]) v = (x <- mapper_map A v ;; mapper_map B x)).
Proof.
  split.
  - intros v. reflexivity.
  - intros A B v. simpl.
    destruct (mapper_map A v) as [a|e]; simpl; [apply bind_Ok_r | reflexivity].
Qed.



(** C8 (counterexample). A [linear] record with [scale] but no [translate],
    [min] or [max] builds without error; the failure only comes when [map] is
    called. *)
Lemma linear_incomplete_builds_cex :
  build (YDict [("name", YStr "linear"); ("scale", YNum 1)])
        (YDict [("min", YNum 0); ("max", YNum 1)]) = Ok (Some MLinearBare) /\
  call_map (Some MLinearBare) (PNum 1) = Err AttributeError.
Proof. split; reflexivity. Qed.

(** C8 (amended). A [linear] record carrying neither the complete pair
    [scale]/[translate] nor the complete pair [min]/[max] is built without
    error into a Linear with no coefficients; every later [map] call on it
    raises AttributeError. *)
Theorem linear_incomplete_defers_failure
  (args : list (string * yaml)) (motor_entry : yaml) :
  getitem args "name" = Ok (YStr "linear") ->
  has_key args "scale" && has_key args "translate" = false ->
  has_key args "min" && has_key args "max" = false ->
  build (YDict args) motor_entry = Ok (Some MLinearBare) /\
  forall v, call_map (Some MLinearBare) v = Err AttributeError.
Proof.
  intros Hn Hst Hmm. split; [|reflexivity].
  simpl build. rewrite Hn. simpl. unfold Linear_init. rewrite Hst, Hmm. reflexivity.
Qed.

Lemma linear_incomplete_defers_failure_witness :
  build (YDict [("name", YStr "linear"); ("translate", YNum 1); ("max", YNum 2)])
        (YDict [("min", YNum 0); ("max", YNum 1)]) = Ok (Some MLinearBare) /\
  call_map (Some MLinearBare) (PNum 0) = Err AttributeError.
Proof.
  destruct (linear_incomplete_defers_failure
              [("name", YStr "linear"); ("translate", YNum 1); ("max", YNum 2)]
              (YDict [("min", YNum 0); ("max", YNum 1)])) as [Hb Hm];
    [reflexivity | reflexivity | reflexivity |].
  split; [exact Hb | apply Hm].
Defined.

(** C10. [build] on a description that is neither a dict nor a list returns
    Python's [None]: no exception, and no object with a [map]. *)
Theorem build_other_returns_none (yamlobj motor_entry : yaml) :
  (forall d, yamlobj <> YDict d) ->
  (forall l, yamlobj <> YList l) ->
  build yamlobj motor_entry = Ok None /\
  forall v, call_map None v = Err AttributeError.
Proof.
  intros Hd Hl. split; [|reflexivity].
  destruct yamlobj as [r|z|s|l|d].
  - reflexivity.
  - reflexivity.
  - reflexivity.
  - exfalso. exact (Hl l eq_refl).
  - exfalso. exact (Hd d eq_refl).
Qed.

Lemma build_other_returns_none_witness :
  build (YStr "linear") (YDict [("min", YNum 0); ("max", YNum 1)]) = Ok None.
Proof.
  apply (build_other_returns_none (YStr "linear") (YDict [("min", YNum 0); ("max", YNum 1)]));
    intros ? H; discriminate H.
Defined.

(** ** WeightedSum *)

(** A term record [{min: a, max: b, imax: c}]. *)
Definition term_fields (ty : yaml) (t : R * R * R) : Prop :=
  let '(a, b, c) := t in
  yget ty "min" = Ok (YNum a) /\ yget ty "max" = Ok (YNum b) /\
  yget ty "imax" = Ok (YNum c).

Definition term_nondegenerate (t : R * R * R) : Prop :=
  let '(a, b, _) := t in a <> b.

(** The spec's saturation: [clamp(value, lo, hi)]. *)
Definition clamp (v lo hi : R) : R := Rmin (Rmax v lo) hi.

(** The spec's per-term contributions, pairing inputs and terms by position. *)
Fixpoint weighted_terms (imin range : R) (vs : list R) (ts : list (R * R * R)) : R :=
  match vs, ts with
  | v :: vs', (a, b, c) :: ts' =>
      (clamp v (Rmin a b) (Rmax a b) - a) * ((c - imin) / (b - a)) * range
      + weighted_terms imin range vs' ts'
  | _, _ => 0
  end.

Definition weighted_sum_spec (imin amin amax : R) (ts : list (R * R * R)) (vs : list R) : R :=
  weighted_terms imin (amax - amin) vs ts + (imin * (amax - amin) + amin).


Lemma clamp_at_max a b : clamp b (Rmin a b) (Rmax a b) = b.
Proof. unfold clamp, Rmin, Rmax. repeat destruct Rle_dec; lra. Qed.

Lemma mapM_cons {A B} (f : A -> result B) x l :
  mapM f (x :: l) = (y <- f x ;; ys <- mapM f l ;; Ok (y :: ys)).
Proof. reflexivity. Qed.

Lemma ws_pretranslations tys ts :
  Forall2 term_fields tys ts ->
  mapM WeightedSum_pretranslation tys = Ok (List.map (fun t => let '(a, _, _) := t in - a) ts).
Proof.
  induction 1 as [|ty [[a b] c] tys ts Hf _ IH]; [reflexivity|].
  destruct Hf as [Ha _]. rewrite mapM_cons, IH. unfold WeightedSum_pretranslation.
  rewrite Ha. reflexivity.
Qed.

Lemma ws_scalefactors args imin range tys ts :
  getitem args "imin" = Ok (YNum imin) ->
  Forall2 term_fields tys ts -> Forall term_nondegenerate ts ->
  mapM (WeightedSum_scalefactor args range) tys
  = Ok (List.map (fun t => let '(a, b, c) := t in (c - imin) / (b - a) * range) ts).
Proof.
  intros Hi. induction 1 as [|ty [[a b] c] tys ts Hf _ IH]; intros Hnd; [reflexivity|].
  inversion Hnd as [|t ts' Hab Hnd']; subst.
  destruct Hf as [Ha [Hb Hc]]. rewrite mapM_cons, (IH Hnd').
  unfold WeightedSum_scalefactor.
  rewrite Hc, Hi, Hb, Ha. cbn [bind py_sub as_pynum num_val py_num_div].
  rewrite py_div_nonzero by (simpl in Hab; lra).
  reflexivity.
Qed.

Lemma ws_parts imin range tys ts vs :
  Forall2 term_fields tys ts ->
  exists parts,
    mapM WeightedSum_term
      (combine (combine (combine vs (List.map (fun t => let '(a, _, _) := t in - a) ts))
                        (List.map (fun t => let '(a, b, c) := t in (c - imin) / (b - a) * range) ts))
               tys) = Ok parts /\
    fold_right Rplus 0 parts = weighted_terms imin range vs ts.
Proof.
  intros H. revert vs.
  induction H as [|ty [[a b] c] tys ts Hf _ IH]; intros vs.
  - exists []. destruct vs; split; reflexivity.
  - destruct vs as [|v vs].
    + exists []. split; reflexivity.
    + destruct (IH vs) as [parts [Hp Hs]].
      destruct Hf as [Ha [Hb Hc]].
      simpl combine. rewrite mapM_cons, Hp. simpl WeightedSum_term.
      unfold WeightedSum_saturated. rewrite Ha, Hb. simpl.
      eexists; split; [reflexivity|]. simpl. rewrite Hs. unfold clamp, Rdiv. ring.
Qed.

Lemma weightedsum_map_general
  (args : list (string * yaml)) (motor_entry : yaml) (amin amax imin : R)
  (tys : list yaml) (ts : list (R * R * R)) :
  yget motor_entry "min" = Ok (YNum amin) ->
  yget motor_entry "max" = Ok (YNum amax) ->
  getitem args "imin" = Ok (YNum imin) ->
  getitem args "terms" = Ok (YList tys) ->
  Forall2 term_fields tys ts ->
  Forall term_nondegenerate ts ->
  exists m, WeightedSum_init args motor_entry = Ok m /\
    forall vs, mapper_map m (PSeq vs) = Ok (PNum (weighted_sum_spec imin amin amax ts vs)).
Proof.
  intros Hmin Hmax Hi Ht Hf Hnd.
  unfold WeightedSum_init. rewrite Hmax, Hmin, Hi, Ht.
  cbn [bind py_sub as_pynum as_num num_val py_iter].
  rewrite (ws_pretranslations _ _ Hf), (ws_scalefactors _ _ (amax - amin) _ _ Hi Hf Hnd).
  cbn [bind].
  eexists; split; [reflexivity|].
  intros vs. cbn [mapper_map]. unfold WeightedSum_map. cbn [as_iter bind].
  destruct (ws_parts imin (amax - amin) tys ts vs Hf) as [parts [Hp Hs]].
  rewrite Hp. cbn [bind].
  rewrite fold_left_Rplus_acc, Hs. unfold weighted_sum_spec.
  do 2 f_equal. ring.
Qed.

(** For a WeightedSum whose [imin] and term fields [{min, max, imax}] are
    floats (each term with min <> max, so that construction succeeds), on a
    motor range of floats [amin, amax], [map] on an input tuple of the terms'
    arity returns the sum
    over the terms of (clamp(v_i, min(t_i.min, t_i.max), max(t_i.min, t_i.max))
    - t_i.min) * ((t_i.imax - imin) / (t_i.max - t_i.min)) * (amax - amin),
    plus imin * (amax - amin) + amin, without error whatever the order of a
    term's bounds. *)
Theorem weightedsum_map_formula
  (args : list (string * yaml)) (motor_entry : yaml) (amin amax imin : R)
  (tys : list yaml) (ts : list (R * R * R)) :
  yget motor_entry "min" = Ok (YNum amin) ->
  yget motor_entry "max" = Ok (YNum amax) ->
  getitem args "imin" = Ok (YNum imin) ->
  getitem args "terms" = Ok (YList tys) ->
  Forall2 term_fields tys ts ->
  Forall term_nondegenerate ts ->
  exists m, WeightedSum_init args motor_entry = Ok m /\
    forall vs, length vs = length ts ->
      mapper_map m (PSeq vs) = Ok (PNum (weighted_sum_spec imin amin amax ts vs)).
Proof.
  intros Hmin Hmax Hi Ht Hf Hnd.
  destruct (weightedsum_map_general args motor_entry amin amax imin tys ts Hmin Hmax Hi Ht Hf Hnd)
    as [m [Hm Hmap]].
  exists m. split; [exact Hm|]. intros vs _. apply Hmap.
Qed.

(** A configuration written with YAML ints: [imin: 0] and the one term
    [{min: 0, max: 2, imax: 1}], on the float motor range [0.0, 1.0]. *)
Definition ws_int_args : list (string * yaml) :=
  [("name", YStr "weightedsum"); ("imin", YInt 0);
   ("terms", YList [YDict [("min", YInt 0); ("max", YInt 2); ("imax", YInt 1)]])].

Definition ws_int_motor : yaml := YDict [("min", YNum 0); ("max", YNum 1)].

(** C2 (code bug). The docstring maps each term's min-max range onto the
    intermediate range, and the claim's formula scales by
    (imax - imin) / (max - min); but when imin and the term's fields are ints,
    Python 2 floor-divides (1 - 0) / (2 - 0) to 0.  The term's scale factor
    is 0 and [map([2])] returns 0.0, where the formula gives 1. *)
Theorem weightedsum_int_config_floor_division :
  exists m, WeightedSum_init ws_int_args ws_int_motor = Ok m /\
    mapper_map m (PSeq [2]) = Ok (PNum 0) /\
    weighted_sum_spec 0 0 1 [(0, 2, 1)] [2] = 1.
Proof.
  eexists; split; [reflexivity|]. split.
  - cbn. do 2 f_equal. ring.
  - unfold weighted_sum_spec, weighted_terms. rewrite clamp_at_max. field.
Qed.

(** The configuration of the docstring's example, with its second term
    inverted. *)
Definition ws_example_args : list (string * yaml) :=
  [("name", YStr "weightedsum"); ("imin", YNum 0);
   ("terms", YList [YDict [("min", YNum 0); ("max", YNum 1); ("imax", YNum 0)];
                    YDict [("min", YNum 1); ("max", YNum 0); ("imax", YNum 1)]])].

Definition ws_example_motor : yaml := YDict [("min", YNum 0); ("max", YNum 2)].

Lemma weightedsum_map_formula_witness :
  exists m, WeightedSum_init ws_example_args ws_example_motor = Ok m /\
    mapper_map m (PSeq [2; 3])
    = Ok (PNum (weighted_sum_spec 0 0 2 [(0, 1, 0); (1, 0, 1)] [2; 3])).
Proof.
  destruct (weightedsum_map_formula ws_example_args ws_example_motor 0 2 0
              [YDict [("min", YNum 0); ("max", YNum 1); ("imax", YNum 0)];
               YDict [("min", YNum 1); ("max", YNum 0); ("imax", YNum 1)]]
              [(0, 1, 0); (1, 0, 1)]) as [m [Hm Hmap]];
    [reflexivity | reflexivity | reflexivity | reflexivity
    | repeat constructor | constructor; [simpl; lra | constructor; [simpl; lra | constructor]] |].
  exists m. split; [exact Hm | apply Hmap; reflexivity].
Defined.

(** C9 (counterexample). With one term and an input tuple of arity two,
    construction succeeds and [map] returns a number, computed from the first
    input alone. *)
Lemma weightedsum_arity_mismatch_cex :
  exists m,
    WeightedSum_init
      [("name", YStr "weightedsum"); ("imin", YNum 0);
       ("terms", YList [YDict [("min", YNum 0); ("max", YNum 1); ("imax", YNum 1)]])]
      (YDict [("min", YNum 0); ("max", YNum 1)]) = Ok m /\
    mapper_map m (PSeq [1 / 2; 5]) = Ok (PNum (1 / 2)).
Proof.
  destruct (weightedsum_map_general
              [("name", YStr "weightedsum"); ("imin", YNum 0);
               ("terms", YList [YDict [("min", YNum 0); ("max", YNum 1); ("imax", YNum 1)]])]
              (YDict [("min", YNum 0); ("max", YNum 1)]) 0 1 0
              [YDict [("min", YNum 0); ("max", YNum 1); ("imax", YNum 1)]]
              [(0, 1, 1)]) as [m [Hm Hmap]];
    [reflexivity | reflexivity | reflexivity | reflexivity
    | repeat constructor | constructor; [simpl; lra | constructor] |].
  exists m. split; [exact Hm|]. rewrite Hmap.
  unfold weighted_sum_spec, weighted_terms, clamp.
  rewrite (Rmin_left 0 1), (Rmax_right 0 1) by lra.
  rewrite (Rmax_left (1 / 2) 0), (Rmin_left (1 / 2) 1) by lra.
  do 2 f_equal. field.
Qed.

(** Steps of a [bind] chain that ended in [Ok]. *)
Ltac bind_ok H :=
  match type of H with
  | bind ?c _ = Ok _ =>
      let E := fresh "E" in
      destruct c eqn:E; cbn [bind] in H; [|discriminate H]
  end.

Lemma as_pynum_as_num y n : as_pynum y = Ok n -> as_num y = Ok (num_val n).
Proof. destruct y; cbn; intros H; try discriminate H; injection H as <-; reflexivity. Qed.

(** A term whose [min] and [max] are numbers: [_saturated] accepts it. *)
Definition term_numeric (t : yaml) : Prop :=
  exists ya yb a b, yget t "min" = Ok ya /\ as_num ya = Ok a /\
                    yget t "max" = Ok yb /\ as_num yb = Ok b.

Lemma pretranslation_min t p :
  WeightedSum_pretranslation t = Ok p -> exists ya a, yget t "min" = Ok ya /\ as_num ya = Ok a.
Proof.
  unfold WeightedSum_pretranslation, py_neg. intros H.
  bind_ok H. bind_ok H. eauto.
Qed.

Lemma scalefactor_max args range t s :
  WeightedSum_scalefactor args range t = Ok s ->
  exists yb b, yget t "max" = Ok yb /\ as_num yb = Ok b.
Proof.
  unfold WeightedSum_scalefactor. intros H.
  repeat bind_ok H.
  match goal with
  | E : py_sub ?y _ = Ok _ |- exists _ _, Ok ?y = Ok _ /\ _ =>
      exists y; unfold py_sub in E;
      destruct (as_pynum y) as [n|] eqn:Ey; cbn [bind] in E; [|discriminate E];
      exists (num_val n); split; [reflexivity | apply as_pynum_as_num; exact Ey]
  end.
Qed.

Lemma Forall2_In_l {A B} (P : A -> B -> Prop) l1 l2 x :
  Forall2 P l1 l2 -> In x l1 -> exists y, In y l2 /\ P x y.
Proof.
  induction 1 as [|a b l1 l2 Hab _ IH]; intros Hin; [destruct Hin|].
  destruct Hin as [<-|Hin].
  - exists b. split; [left; reflexivity | exact Hab].
  - destruct (IH Hin) as [y [Hy Hp]]. exists y. split; [right; exact Hy | exact Hp].
Qed.

Lemma mapM_Ok_all {A B} (f : A -> result B) (l : list A) :
  (forall x, In x l -> exists y, f x = Ok y) -> exists ys, mapM f l = Ok ys.
Proof.
  induction l as [|x l IH]; intros H; [exists []; reflexivity|].
  destruct (H x (or_introl eq_refl)) as [y Hy].
  destruct IH as [ys Hys]; [intros x' Hx'; apply H; right; exact Hx'|].
  exists (y :: ys). rewrite mapM_cons, Hy, Hys. reflexivity.
Qed.

(** The shape of a constructed WeightedSum: its [termargs] are the configured
    terms, each with numeric bounds. *)
Lemma ws_init_shape args motor_entry tys m :
  getitem args "terms" = Ok (YList tys) ->
  WeightedSum_init args motor_entry = Ok m ->
  exists post pres scs, m = MWeightedSum post pres scs tys /\ Forall term_numeric tys.
Proof.
  intros Ht H. unfold WeightedSum_init in H.
  repeat bind_ok H. injection H as <-.
  match goal with
  | Et : Ok ?y = Ok (YList tys), Ei : py_iter ?y = Ok ?l,
    Ep : mapM WeightedSum_pretranslation ?l = Ok _,
    Es : mapM (WeightedSum_scalefactor _ _) ?l = Ok _ |- _ =>
      injection Et as ->; cbn [py_iter] in Ei; injection Ei as <-;
      apply mapM_Ok_Forall2 in Ep; apply mapM_Ok_Forall2 in Es;
      rename Ep into Hpre, Es into Hsc
  end.
  do 3 eexists. split; [reflexivity|].
  apply Forall_forall. intros t Hin.
  destruct (Forall2_In_l _ _ _ _ Hpre Hin) as [p [_ Hp]].
  destruct (Forall2_In_l _ _ _ _ Hsc Hin) as [sc [_ Hs]].
  destruct (pretranslation_min _ _ Hp) as (ya & va & Hya & Hva).
  destruct (scalefactor_max _ _ _ _ Hs) as (yb & vb & Hyb & Hvb).
  exists ya, yb, va, vb. auto.
Qed.

Lemma saturated_numeric v t :
  term_numeric t -> exists r, WeightedSum_saturated v t = Ok r.
Proof.
  intros (ya & yb & a & b & Hya & Ha & Hyb & Hb). unfold WeightedSum_saturated.
  rewrite Hya. cbn [bind]. rewrite Ha. cbn [bind]. rewrite Hyb. cbn [bind]. rewrite Hb.
  eexists; reflexivity.
Qed.

Lemma combine_firstn_le {A B} (l1 : list A) (l2 : list B) k :
  (length l1 <= k)%nat -> combine l1 (firstn k l2) = combine l1 l2.
Proof.
  revert l2 k; induction l1 as [|x l1 IH]; intros l2 k Hk; [reflexivity|].
  destruct k as [|k]; [simpl in Hk; lia|].
  destruct l2 as [|y l2]; [reflexivity|].
  simpl. rewrite IH by (simpl in Hk; lia). reflexivity.
Qed.

Lemma combine_length_le_l {A B} (l1 : list A) (l2 : list B) :
  (length (combine l1 l2) <= length l1)%nat.
Proof. rewrite length_combine. lia. Qed.

(** [zip(vals, ps, ss, ts)] ignores the inputs beyond [len(ts)] ... *)
Lemma zip4_firstn_vals {A B C D} (vs : list A) (ps : list B) (ss : list C) (ts : list D) :
  combine (combine (combine (firstn (length ts) vs) ps) ss) ts
  = combine (combine (combine vs ps) ss) ts.
Proof.
  revert vs ps ss; induction ts as [|t ts IH]; intros vs ps ss.
  - rewrite !combine_nil. reflexivity.
  - destruct vs as [|v vs]; [reflexivity|].
    destruct ps as [|p ps]; [reflexivity|].
    destruct ss as [|s ss]; [reflexivity|].
    simpl. rewrite IH. reflexivity.
Qed.

(** ... and the [ps], [ss] and [ts] beyond [len(vals)]. *)
Lemma zip4_firstn_rest {A B C D} (vs : list A) (ps : list B) (ss : list C) (ts : list D) :
  combine (combine (combine vs ps) ss) ts
  = combine (combine (combine vs (firstn (length vs) ps)) (firstn (length vs) ss))
            (firstn (length vs) ts).
Proof.
  rewrite (combine_firstn_le vs ps (length vs)) by lia.
  rewrite (combine_firstn_le (combine vs ps) ss (length vs)) by apply combine_length_le_l.
  rewrite (combine_firstn_le (combine (combine vs ps) ss) ts (length vs)); [reflexivity|].
  etransitivity; apply combine_length_le_l.
Qed.

(** A configuration in YAML ints with two terms (every division exact in
    Python 2 as well). *)
Definition ws_int2_terms : list yaml :=
  [YDict [("min", YInt 0); ("max", YInt 1); ("imax", YInt 1)];
   YDict [("min", YInt 0); ("max", YInt 1); ("imax", YInt 2)]].

Definition ws_int2_args : list (string * yaml) :=
  [("name", YStr "weightedsum"); ("imin", YInt 0); ("terms", YList ws_int2_terms)].

(** C9 (amended). WeightedSum does not check the arity of its input, at
    construction or in [map]: whenever construction succeeds, [map] returns a
    number on an input tuple of any length, pairing inputs with terms by
    position ([zip]) up to the shorter of the two; inputs beyond the number of
    terms never change the result, and terms beyond the number of inputs
    contribute nothing (the result is that of the same WeightedSum with those
    terms removed). *)
Theorem weightedsum_arity_unchecked
  (args : list (string * yaml)) (motor_entry : yaml) (tys : list yaml) (m : mapper) :
  getitem args "terms" = Ok (YList tys) ->
  WeightedSum_init args motor_entry = Ok m ->
  exists post pres scs, m = MWeightedSum post pres scs tys /\
    forall vs,
      (exists r, mapper_map m (PSeq vs) = Ok (PNum r)) /\
      mapper_map m (PSeq vs) = mapper_map m (PSeq (firstn (length tys) vs)) /\
      mapper_map m (PSeq vs)
      = mapper_map (MWeightedSum post (firstn (length vs) pres) (firstn (length vs) scs)
                                 (firstn (length vs) tys)) (PSeq vs).
Proof.
  intros Ht Hm.
  destruct (ws_init_shape _ _ _ _ Ht Hm) as (post & pres & scs & -> & Hnum).
  exists post, pres, scs. split; [reflexivity|]. intros vs.
  cbn [mapper_map]. unfold WeightedSum_map. cbn [as_iter bind].
  split; [|split].
  - destruct (mapM_Ok_all WeightedSum_term (combine (combine (combine vs pres) scs) tys))
      as [parts Hp].
    + intros [[[v p] sc] t] Hin. apply in_combine_r in Hin.
      rewrite Forall_forall in Hnum.
      destruct (saturated_numeric v t (Hnum t Hin)) as [r Hr].
      cbn [WeightedSum_term]. rewrite Hr. eexists; reflexivity.
    + rewrite Hp. eexists; reflexivity.
  - rewrite zip4_firstn_vals. reflexivity.
  - rewrite <- zip4_firstn_rest. reflexivity.
Qed.

Lemma weightedsum_arity_unchecked_witness :
  exists m, WeightedSum_init ws_int2_args ws_int_motor = Ok m /\
    exists r, mapper_map m (PSeq [1; 2; 3]) = Ok (PNum r).
Proof.
  eexists; split; [reflexivity|].
  destruct (weightedsum_arity_unchecked ws_int2_args ws_int_motor ws_int2_terms _
              eq_refl eq_refl) as (post & pres & scs & _ & Hmap).
  destruct (Hmap [1; 2; 3]) as [Hok _]. exact Hok.
Defined.

(** ** Quaternion2Euler *)

Lemma axis_key_str args s :
  getitem args "axis" = Ok (YStr s) -> axis_key args = Ok (lower s).
Proof. intros H. unfold axis_key. rewrite H. reflexivity. Qed.

(** C3. [Quaternion2EulerYZX] reads [args['axis']] case-insensitively once,
    at construction, and its [map] is the chosen formula: for axis y
    atan2(-2(zx - wy), w^2 - y^2 - z^2 + x^2), for axis z asin(2(yx + wz)),
    for axis x atan2(-2(yz - wx), w^2 + y^2 - z^2 - x^2); any other axis
    fails construction. *)
Theorem quaternion2euler_yzx_axis
  (args : list (string * yaml)) (motor_entry : yaml) (s : string) :
  getitem args "axis" = Ok (YStr s) ->
  (lower s = "y" ->
     exists m, Quaternion2EulerYZX_init args motor_entry = Ok m /\
       forall w x y z, mapper_map m (PQuat (Quat w x y z))
         = Ok (PNum (atan2 (-2 * (z * x - w * y)) (w ^ 2 - y ^ 2 - z ^ 2 + x ^ 2)))) /\
  (lower s = "z" ->
     exists m, Quaternion2EulerYZX_init args motor_entry = Ok m /\
       forall w x y z, mapper_map m (PQuat (Quat w x y z))
         = (r <- py_asin (2 * (y * x + w * z)) ;; Ok (PNum r))) /\
  (lower s = "x" ->
     exists m, Quaternion2EulerYZX_init args motor_entry = Ok m /\
       forall w x y z, mapper_map m (PQuat (Quat w x y z))
         = Ok (PNum (atan2 (-2 * (y * z - w * x)) (w ^ 2 + y ^ 2 - z ^ 2 - x ^ 2)))) /\
  (lower s <> "x" -> lower s <> "y" -> lower s <> "z" ->
     Quaternion2EulerYZX_init args motor_entry = Err KeyError).
Proof.
  intros Ha. unfold Quaternion2EulerYZX_init. rewrite (axis_key_str _ _ Ha). cbn [bind].
  split; [|split; [|split]].
  - intros ->. eexists; split; [reflexivity|]. reflexivity.
  - intros ->. eexists; split; [reflexivity|]. reflexivity.
  - intros ->. eexists; split; [reflexivity|]. reflexivity.
  - intros Hx Hy Hz.
    destruct (String.eqb (lower s) "y") eqn:Ey; [apply String.eqb_eq in Ey; contradiction|].
    destruct (String.eqb (lower s) "z") eqn:Ez; [apply String.eqb_eq in Ez; contradiction|].
    destruct (String.eqb (lower s) "x") eqn:Ex; [apply String.eqb_eq in Ex; contradiction|].
    reflexivity.
Qed.

Lemma quaternion2euler_yzx_axis_witness :
  exists m, Quaternion2EulerYZX_init [("name", YStr "quaternion2euler"); ("axis", YStr "Z")]
              (YDict []) = Ok m /\
    forall w x y z, mapper_map m (PQuat (Quat w x y z))
      = (r <- py_asin (2 * (y * x + w * z)) ;; Ok (PNum r)).
Proof.
  destruct (quaternion2euler_yzx_axis [("name", YStr "quaternion2euler"); ("axis", YStr "Z")]
              (YDict []) "Z") as [_ [Hz _]]; [reflexivity|].
  apply Hz. reflexivity.
Defined.

(** A quaternion a hair off unit norm (w = z = 0.7072), as floating-point
    drift produces: 2(yx + wz) = 1.00025... is just above 1. *)
Definition drifted_quat : quat := Quat (7072 / 10000) 0 0 (7072 / 10000).

(** C7 (counterexample). The axis-z map does not clamp the [asin] argument:
    on [drifted_quat] it raises ValueError. *)
Lemma quaternion_z_unclamped_cex :
  exists m, Quaternion2EulerYZX_init [("name", YStr "quaternion2euler"); ("axis", YStr "z")]
              (YDict []) = Ok m /\
    mapper_map m (PQuat drifted_quat) = Err ValueError.
Proof.
  eexists; split; [reflexivity|].
  cbn [mapper_map yzx_z attr_q bind drifted_quat qw qx qy qz]. unfold py_asin.
  destruct (Rle_dec (-1) _) as [H1|H1]; [|reflexivity].
  destruct (Rle_dec _ 1) as [H2|H2]; [|reflexivity].
  exfalso. lra.
Qed.

(** C7 (amended). In both quaternion classes the axis-z map passes
    2(yx + wz) to [math.asin] unclamped: it returns asin of it when it lies in
    [-1, 1] and raises ValueError when it lies outside. *)
Theorem quaternion_z_asin_unclamped
  (args : list (string * yaml)) (motor_entry : yaml) (s : string) :
  getitem args "axis" = Ok (YStr s) -> lower s = "z" ->
  forall init, init = Quaternion2EulerYZX_init \/ init = Quaternion2EulerYZY_init ->
  exists m, init args motor_entry = Ok m /\
    forall w x y z,
      (-1 <= 2 * (y * x + w * z) <= 1 ->
         mapper_map m (PQuat (Quat w x y z)) = Ok (PNum (asin (2 * (y * x + w * z))))) /\
      (2 * (y * x + w * z) < -1 \/ 1 < 2 * (y * x + w * z) ->
         mapper_map m (PQuat (Quat w x y z)) = Err ValueError).
Proof.
  intros Ha Hz init Hinit.
  assert (Hm : exists m, init args motor_entry = Ok m /\
                 forall v, mapper_map m v
                   = (q <- attr_q v ;; r <- py_asin (2 * (qy q * qx q + qw q * qz q)) ;; Ok (PNum r))).
  { destruct Hinit as [-> | ->].
    - unfold Quaternion2EulerYZX_init. rewrite (axis_key_str _ _ Ha), Hz.
      eexists; split; [reflexivity | reflexivity].
    - unfold Quaternion2EulerYZY_init. rewrite (axis_key_str _ _ Ha), Hz.
      eexists; split; [reflexivity | reflexivity]. }
  destruct Hm as [m [Hm Hmap]]. exists m. split; [exact Hm|].
  intros w x y z. rewrite Hmap. cbn [attr_q bind qw qx qy qz]. unfold py_asin.
  split.
  - intros [H1 H2].
    destruct (Rle_dec (-1) _); [|contradiction].
    destruct (Rle_dec _ 1); [reflexivity | contradiction].
  - intros H.
    destruct (Rle_dec (-1) _); [|reflexivity].
    destruct (Rle_dec _ 1); [exfalso; lra | reflexivity].
Qed.

Lemma quaternion_z_asin_unclamped_witness :
  exists m, Quaternion2EulerYZY_init [("name", YStr "quaternion2YZY"); ("axis", YStr "z")]
              (YDict []) = Ok m /\
    mapper_map m (PQuat drifted_quat) = Err ValueError.
Proof.
  destruct (quaternion_z_asin_unclamped [("name", YStr "quaternion2YZY"); ("axis", YStr "z")]
              (YDict []) "z" eq_refl eq_refl Quaternion2EulerYZY_init (or_intror eq_refl))
    as [m [Hm Hmap]].
  exists m. split; [exact Hm|].
  apply (proj2 (Hmap (7072 / 10000) 0 0 (7072 / 10000))). right. lra.
Defined.

(** ** Further properties of the code *)

(** *** Linear *)










(** *** Composite and build *)

(** Composites compose: the Composite of [ms1 ++ ms2] is the Composite of
    [ms1] followed by the Composite of [ms2], and a Composite nested as a
    stage behaves as its own stages. *)
Theorem composite_append (ms1 ms2 : list (option mapper)) :
  (forall v, mapper_map (MComposite (ms1 ++ ms2)) v
             = (x <- mapper_map (MComposite ms1) v ;; mapper_map (MComposite ms2) x)) /\
  (forall v, mapper_map (MComposite (Some (MComposite ms1) :: ms2)) v
             = mapper_map (MComposite (ms1 ++ ms2)) v).
Proof.
  assert (Happ : forall v, mapper_map (MComposite (ms1 ++ ms2)) v
             = (x <- mapper_map (MComposite ms1) v ;; mapper_map (MComposite ms2) x)).
  { intros v. rewrite !composite_map_chain. unfold chain_stages.
    rewrite fold_left_app.
    destruct (fold_left (fun acc o => bind acc (call_map o)) ms1 (Ok v)) as [a|e]; cbn [bind].
    - symmetry. apply composite_map_chain.
    - apply fold_chain_Err. }
  split; [exact Happ|].
  intros v. rewrite Happ. reflexivity.
Qed.

Lemma composite_None_fails ms :
  In None ms -> forall v, exists e, mapper_map (MComposite ms) v = Err e.
Proof.
  induction ms as [|o ms IH]; intros Hin v; [destruct Hin|].
  destruct o as [m|].
  - destruct Hin as [H|Hin]; [discriminate H|].
    simpl. destruct (mapper_map m v) as [a|e]; simpl.
    + exact (IH Hin a).
    + exists e. reflexivity.
  - exists AttributeError. reflexivity.
Qed.

(** A list description with an element that is neither a dict nor a list
    still builds (that element becomes [None]), but the resulting Composite
    never returns a value: its [map] always raises. *)
Theorem build_list_with_non_stage
  (l : list yaml) (motor_entry : yaml) (ms : list (option mapper)) (y : yaml) :
  Forall2 (fun e o => build e motor_entry = Ok o) l ms ->
  In y l -> (forall d, y <> YDict d) -> (forall l', y <> YList l') ->
  build (YList l) motor_entry = Ok (Some (MComposite ms)) /\
  forall v, exists e, call_map (Some (MComposite ms)) v = Err e.
Proof.
  intros Hl Hin Hd Hls. split.
  - simpl build. rewrite (mapM_Forall2 _ _ _ Hl). reflexivity.
  - destruct (Forall2_In_l _ _ _ _ Hl Hin) as [o [Ho Hb]].
    assert (Hnone : build y motor_entry = Ok None).
    { destruct y as [r|z|s|l'|d].
      - reflexivity.
      - reflexivity.
      - reflexivity.
      - exfalso. exact (Hls l' eq_refl).
      - exfalso. exact (Hd d eq_refl). }
    rewrite Hnone in Hb. injection Hb as <-.
    apply composite_None_fails. exact Ho.
Qed.

Lemma build_list_with_non_stage_witness :
  build (YList [YDict [("name", YStr "linear"); ("scale", YNum 2); ("translate", YNum 1)];
                YNum 3]) (YDict [])
  = Ok (Some (MComposite [Some (MLinear 0 (YNum 2) (YNum 1)); None])) /\
  forall v, exists e,
    call_map (Some (MComposite [Some (MLinear 0 (YNum 2) (YNum 1)); None])) v = Err e.
Proof.
  apply (build_list_with_non_stage _ _ _ (YNum 3)).
  - repeat constructor.
  - right. left. reflexivity.
  - intros d H. discriminate H.
  - intros l' H. discriminate H.
Defined.

(** *** WeightedSum *)
















(** *** Quaternion2Euler *)

(** [Quaternion2EulerYZY] built with axis x raises ZeroDivisionError on every
    quaternion with w = 1, the identity rotation among them: acos(1) = 0, so
    [why] divides by sin(0) = 0. *)
Theorem quaternion_yzy_x_fails_at_w1
  (args : list (string * yaml)) (motor_entry : yaml) (s : string) :
  getitem args "axis" = Ok (YStr s) -> lower s = "x" ->
  exists m, Quaternion2EulerYZY_init args motor_entry = Ok m /\
    forall x y z, mapper_map m (PQuat (Quat 1 x y z)) = Err ZeroDivisionError.
Proof.
  intros Ha Hx. unfold Quaternion2EulerYZY_init. rewrite (axis_key_str _ _ Ha), Hx.
  eexists; split; [reflexivity|].
  intros x y z. cbn [mapper_map yzy_why attr_q bind qw qx qy qz].
  unfold py_acos.
  destruct (Rle_dec (-1) 1); [|lra]. destruct (Rle_dec 1 1); [|lra].
  cbn [bind]. rewrite acos_1.
  replace (1 / 2 * (2 * 0)) with 0 by field. rewrite sin_0.
  unfold py_div. destruct (Req_EM_T 0 0); [reflexivity | contradiction].
Qed.

Lemma quaternion_yzy_x_fails_at_w1_witness :
  exists m, Quaternion2EulerYZY_init [("name", YStr "quaternion2YZY"); ("axis", YStr "X")]
              (YDict []) = Ok m /\
    mapper_map m (PQuat (Quat 1 0 0 0)) = Err ZeroDivisionError.
Proof.
  destruct (quaternion_yzy_x_fails_at_w1 [("name", YStr "quaternion2YZY"); ("axis", YStr "X")]
              (YDict []) "X") as [m [Hm Hmap]]; [reflexivity | reflexivity |].
  exists m. split; [exact Hm | apply Hmap].
Defined.

Lemma why_result v r :
  yzy_why v = Ok r -> yzx_y v = Ok r.
Proof.
  unfold yzy_why, yzx_y. destruct (attr_q v) as [q|e]; cbn [bind]; [|discriminate].
  destruct (py_acos (qw q)); cbn [bind]; [|discriminate].
  destruct (py_div (qx q) _); cbn [bind]; [|discriminate].
  destruct (py_div (qy q) _); cbn [bind]; [|discriminate].
  destruct (py_div (qz q) _); cbn [bind]; [|discriminate].
  destruct (py_acos _); cbn [bind]; [|discriminate].
  destruct (py_acos _); cbn [bind]; [|discriminate].
  destruct (py_acos _); cbn [bind]; [|discriminate].
  destruct (py_asin _); cbn [bind]; [|discriminate].
  exact (fun H => H).
Qed.

Lemma why_asin_error v e :
  yzx_z v = Err e -> exists e', yzy_why v = Err e'.
Proof.
  unfold yzy_why, yzx_z. destruct (attr_q v) as [q|e0]; cbn [bind]; [|eauto].
  intros Hz.
  destruct (py_asin (2 * (qy q * qx q + qw q * qz q))) eqn:Ha; cbn [bind] in Hz; [discriminate|].
  destruct (py_acos (qw q)); cbn [bind]; [|eauto].
  destruct (py_div (qx q) _); cbn [bind]; [|eauto].
  destruct (py_div (qy q) _); cbn [bind]; [|eauto].
  destruct (py_div (qz q) _); cbn [bind]; [|eauto].
  destruct (py_acos _); cbn [bind]; [|eauto].
  destruct (py_acos _); cbn [bind]; [|eauto].
  destruct (py_acos _); cbn [bind]; [|eauto].
  cbn [bind]. eauto.
Qed.

(** [Quaternion2EulerYZY] built with axis x: its diagnostics never change the
    result, which when there is one is the value of [Quaternion2EulerYZX]'s
    axis-y formula; and it raises wherever the axis-z [asin] would. *)
Theorem quaternion_yzy_x_is_yzx_y
  (args : list (string * yaml)) (motor_entry : yaml) (s : string) :
  getitem args "axis" = Ok (YStr s) -> lower s = "x" ->
  exists m, Quaternion2EulerYZY_init args motor_entry = Ok m /\
    forall v,
      (forall r, mapper_map m v = Ok r -> yzx_y v = Ok r) /\
      (forall e, yzx_z v = Err e -> exists e', mapper_map m v = Err e').
Proof.
  intros Ha Hx. unfold Quaternion2EulerYZY_init. rewrite (axis_key_str _ _ Ha), Hx.
  eexists; split; [reflexivity|].
  intros v. split.
  - apply why_result.
  - apply why_asin_error.
Qed.

Lemma quaternion_yzy_x_is_yzx_y_witness :
  exists m, Quaternion2EulerYZY_init [("name", YStr "quaternion2YZY"); ("axis", YStr "x")]
              (YDict []) = Ok m /\
    forall r, mapper_map m (PQuat (Quat (1 / 2) (1 / 2) (1 / 2) (1 / 2))) = Ok r ->
      yzx_y (PQuat (Quat (1 / 2) (1 / 2) (1 / 2) (1 / 2))) = Ok r.
Proof.
  destruct (quaternion_yzy_x_is_yzx_y [("name", YStr "quaternion2YZY"); ("axis", YStr "x")]
              (YDict []) "x") as [m [Hm Hmap]]; [reflexivity | reflexivity |].
  exists m. split; [exact Hm | apply Hmap].
Defined.
